(** * Fractal: the two-stage parse engine of [src/fractal.js]

    A shallow embedding of the [Fractal] class: the configuration-time
    mutators ([addSrc], [addPlugin], [addMethod], [addExtension],
    [setTransformer]), the event emitter it extends, and the asynchronous
    [parse] chain with its callback and promise calling conventions.

    JavaScript values are a small inductive type; exceptions and promise
    rejections are the [Throw] side of [Result]; the engine object is a
    record threaded through a state-and-writer monad whose output is the
    ordered list of observable effects (events emitted, callback
    invocations, unhandled rejections).

    The promise chain of [parse] is followed step by step, including the
    two places where it looks a member up on a Collection that carries
    user-registered methods: the resolution of a promise with the
    Collection (a Collection with a callable [then] is a thenable) and the
    call [files.toArray()].

    What the model leaves out: [addCommand] and the [version] getter.
    Event listeners return normally and completion callbacks observe; they
    do not call back into the engine.  A handler sees a Collection through
    its records, and returns or throws without calling a function it was
    handed.  Method names are read as lodash reads names without bracket
    syntax ([plain_name]). *)

From Stdlib Require Import List String Ascii ZArith Bool.
Import ListNotations.
Local Open Scope string_scope.
Local Open Scope list_scope.
Set Warnings "-register-all".

(** ** JavaScript values *)

Inductive Value : Type :=
| VUndefined
| VNull
| VBool (b : bool)
| VNum (n : Z)
| VStr (s : string)
| VError (message : string)
| VObject (props : list (string * Value))
| VArray (elems : list Value)
| VFunction (label : string).

(** ToBoolean: [undefined], [null], [false], [0] and the empty string are
    falsy; every object (errors, arrays and functions included) is
    truthy. *)
Definition truthy (v : Value) : bool :=
  match v with
  | VUndefined | VNull => false
  | VBool b => b
  | VNum n => negb (n =? 0)%Z
  | VStr s => negb (s =? "")
  | VError _ | VObject _ | VArray _ | VFunction _ => true
  end.

(** A record flowing through a pipeline is an opaque structured value; a
    record set is an array of them. *)
Definition Data : Type := list Value.

(** A call either returns or throws; a promise either resolves or rejects.
    The [then] chain of [parse] treats a synchronous throw inside a
    callback and a returned rejected promise alike, so both are [Throw]. *)
Inductive Result (A : Type) : Type :=
| Return (a : A)
| Throw (err : Value).
Arguments Return {A} a.
Arguments Throw {A} err.

(** ** Functions supplied by the user *)

(** [(records, engineRef) -> records | Promise<records>].  Interaction of a
    plugin with the engine while it runs is accounted for by the schedule
    of [parse] below. *)
Definition Plugin : Type := Data -> Result Data.

(** The transformer is handed whatever [files.toArray()] returned on line
    207: an array of records when [toArray] is the Collection's own, any
    value when a method was hung in its place.  It answers with a record
    set. *)
Definition Transformer : Type := Value -> Result Data.

(** Identity of an engine object. *)
Definition EngineRef : Type := nat.

(** The objects a method handler can be handed: a Collection (seen through
    its record sequence) or the plain object [{files, components}] built by
    the [state] getter, whose fields are a Collection or [null]. *)
Inductive JsObject : Type :=
| OCollection (items : Data)
| OState (files components : option Data).

Inductive JsThis : Type :=
| ThisUndefined
| ThisObject (o : JsObject).

(** A handler is an ordinary function: it may look at its receiver.  It
    returns a value or throws; a handler that calls a function it was
    handed among its arguments is beyond what this type expresses. *)
Definition Handler : Type :=
  JsThis -> list Value -> JsObject -> EngineRef -> Result Value.

(** The arrow function [(...args) => handler(args, this.state, this)]
    built by [addMethod]: a closure over the handler and the engine. *)
Record Wrapped : Type := mkWrapped {
  w_handler : Handler;
  w_engine : EngineRef
}.

(** The result of [Function.prototype.bind]: a target and a receiver. *)
Record BoundFn : Type := mkBound {
  b_target : Wrapped;
  b_this : JsThis
}.

(** ** lodash [_.set] on the member surface of an object

    The properties hung on a Collection form a tree: every node is an
    object, callable when it is a bound method, with named properties of
    its own (a function is an object, so [render] can be a method and carry
    [render.html]). *)
Inductive Member : Type :=
| MNode (fn : option BoundFn) (props : list (string * Member)).

Fixpoint assoc_get {A : Type} (k : string) (l : list (string * A)) : option A :=
  match l with
  | [] => None
  | (k', v) :: r => if k =? k' then Some v else assoc_get k r
  end.

(** Assignment to a property keeps the key's position when it exists and
    appends it otherwise. *)
Fixpoint assoc_set {A : Type} (k : string) (v : A) (l : list (string * A))
  : list (string * A) :=
  match l with
  | [] => [(k, v)]
  | (k', v') :: r => if k =? k' then (k, v) :: r else (k', v') :: assoc_set k v r
  end.

(** The path lodash reads off a name ([castPath], [stringToPath]), for
    names without bracket syntax: split at every dot.  A name with [[] or
    []] in it is read otherwise by lodash ([a[0]] is [a], [0]) and is
    outside this definition's domain: see [plain_name]. *)
Fixpoint to_path (s : string) : list string :=
  match s with
  | EmptyString => [""]
  | String c r =>
      if Ascii.eqb c "."%char then "" :: to_path r
      else match to_path r with
           | h :: t => String c h :: t
           | [] => [String c ""]
           end
  end.






(** [baseSet]: walk the path; an intermediate property that is an object is
    kept, a missing one becomes a fresh plain object; the last key is
    assigned the value. *)
Fixpoint set_path (p : list string) (f : BoundFn) (t : Member) : Member :=
  match p with
  | [] => t
  | k :: rest =>
      match t with
      | MNode fn props =>
          match rest with
          | [] => MNode fn (assoc_set k (MNode (Some f) []) props)
          | _ :: _ =>
              let child := match assoc_get k props with
                           | Some c => c
                           | None => MNode None []
                           end in
              MNode fn (assoc_set k (set_path rest f child) props)
          end
      end
  end.

Fixpoint get_path (p : list string) (t : Member) : option Member :=
  match p with
  | [] => Some t
  | k :: rest =>
      match t with
      | MNode _ props =>
          match assoc_get k props with
          | Some c => get_path rest c
          | None => None
          end
      end
  end.

(** The function hung at a path by [_.set], if the value there is
    callable.  Members an object inherits ([call], [apply], [bind],
    [toString] and the like, on every function) are not in the tree:
    [None] says that nothing was hung there, not that nothing can be
    called there. *)
Definition member_fn (p : list string) (t : Member) : option BoundFn :=
  match get_path p t with
  | Some (MNode fn _) => fn
  | None => None
  end.

(** ** Collection *)

(** Modelled from the spec: [./collection] is not among the sources.  A
    Collection is constructed from an ordered sequence of records, exposes
    them read-only ([toArray], length), and hosts the methods attached to
    it at dotted paths; no method changes the record sequence.  Its own
    [toArray] is kept apart from the attached members: [toArray] below
    says which of the two a call reaches. *)
Record Collection : Type := mkCollection {
  items : Data;
  members : Member
}.

Definition new_Collection (records : Data) : Collection :=
  mkCollection records (MNode None []).

(** [_.set(collection, name, fn)]. *)
Definition lodash_set (c : Collection) (name : string) (f : BoundFn) : Collection :=
  mkCollection (items c) (set_path (to_path name) f (members c)).

(** [fn.bind(collection)]. *)
Definition bind_to (w : Wrapped) (c : Collection) : BoundFn :=
  mkBound w (ThisObject (OCollection (items c))).

(** ** Plugins and Methods *)

(** Modelled from the spec: [./plugins] is not among the sources.  [use]
    appends to the registration list; [process] feeds each plugin the
    previous one's output in registration order and stops at the first
    failure. *)
Definition use (p : Plugin) (ps : list Plugin) : list Plugin := ps ++ [p].

Fixpoint process (ps : list Plugin) (data : Data) : Result Data :=
  match ps with
  | [] => Return data
  | p :: rest =>
      match p data with
      | Return out => process rest out
      | Throw err => Throw err
      end
  end.

Record Method : Type := mkMethod {
  name : string;
  handler : Wrapped
}.

(** Modelled from the spec: [./methods] is not among the sources.  [add]
    registers a [{name, handler}] pair; iterating the registry yields the
    pairs in registration order, duplicates included. *)
Definition add (m : Method) (ms : list Method) : list Method := ms ++ [m].

(** ** The engine *)

Record Target : Type := mkTarget {
  plugins : list Plugin;
  methods : list Method;
  state : option Collection
}.

Inductive TargetName : Type := Files | Components.

Record Engine : Type := mkEngine {
  self : EngineRef;
  src_ref : option (list string);
  files : Target;
  components : Target;
  transformer : Transformer;
  listeners : list string
}.

(** [get src()], lines 308-310: [refs.src.get(this) || []]. *)
Definition src (e : Engine) : list string :=
  match src_ref e with
  | Some l => l
  | None => []
  end.

Definition view (t : Target) : option Data := option_map items (state t).





(** [get state()], lines 257-262: a fresh [{files, components}] object
    read off the two targets at the moment of the call. *)
Definition state_getter (e : Engine) : JsObject :=
  OState (view (files e)) (view (components e)).

Definition target (t : TargetName) (e : Engine) : Target :=
  match t with
  | Files => files e
  | Components => components e
  end.

Definition set_target (t : TargetName) (v : Target) (e : Engine) : Engine :=
  match t with
  | Files => mkEngine (self e) (src_ref e) v (components e) (transformer e) (listeners e)
  | Components => mkEngine (self e) (src_ref e) (files e) v (transformer e) (listeners e)
  end.

Definition set_src (l : list string) (e : Engine) : Engine :=
  mkEngine (self e) (Some l) (files e) (components e) (transformer e) (listeners e).

Definition set_transformer (f : Transformer) (e : Engine) : Engine :=
  mkEngine (self e) (src_ref e) (files e) (components e) f (listeners e).

Definition add_listener (ev : string) (e : Engine) : Engine :=
  mkEngine (self e) (src_ref e) (files e) (components e) (transformer e)
           (listeners e ++ [ev]).

(** ** Observable effects *)

Inductive Event : Type :=
| EvParseStart
| EvParseComplete (components_state files_state : option Collection)
| EvError (err : Value)
| EvLog (level : Value) (message : string) (data : Value).

(** What a completion callback is called with: [callback(null, components,
    files)] or [callback(err)]. *)
Inductive CbArgs : Type :=
| CbSuccess (components_state files_state : option Collection)
| CbFailure (err : Value).

Definition Callback : Type := CbArgs -> Result unit.

Inductive Effect : Type :=
| Emitted (ev : Event)
| Called (args : CbArgs)
| UnhandledRejection (reason : Value).

(** ** The monad: engine state, effect output, exceptions *)

Definition M (A : Type) : Type := Engine -> Result A * Engine * list Effect.

Definition ret {A : Type} (a : A) : M A := fun e => (Return a, e, []).

Definition bind {A B : Type} (m : M A) (k : A -> M B) : M B :=
  fun e =>
    match m e with
    | (Return a, e1, out1) =>
        match k a e1 with
        | (r, e2, out2) => (r, e2, out1 ++ out2)
        end
    | (Throw err, e1, out1) => (Throw err, e1, out1)
    end.

Definition throw {A : Type} (err : Value) : M A := fun e => (Throw err, e, []).

Definition try_catch {A : Type} (m : M A) (h : Value -> M A) : M A :=
  fun e =>
    match m e with
    | (Return a, e1, out1) => (Return a, e1, out1)
    | (Throw err, e1, out1) =>
        match h err e1 with
        | (r, e2, out2) => (r, e2, out1 ++ out2)
        end
    end.

Definition gets {A : Type} (f : Engine -> A) : M A := fun e => (Return (f e), e, []).
Definition modify (f : Engine -> Engine) : M unit := fun e => (Return tt, f e, []).
Definition tell (x : Effect) : M unit := fun e => (Return tt, e, [x]).

(** Waiting for a promise: its value, or its rejection thrown. *)
Definition await {A : Type} (p : Result A) : M A :=
  match p with
  | Return a => ret a
  | Throw err => throw err
  end.

Declare Scope fractal_scope.
Delimit Scope fractal_scope with fractal.
Notation "x <- m ;; k" := (bind m (fun x => k))
  (at level 61, m at next level, right associativity) : fractal_scope.
Notation "m ;; k" := (bind m (fun _ => k))
  (at level 61, right associativity) : fractal_scope.
Local Open Scope fractal_scope.

(** A promise chain nobody awaits: a rejection that reaches its end is an
    unhandled rejection of the process. *)
Definition detached (m : M unit) : M unit :=
  try_catch m (fun err => tell (UnhandledRejection err)).

Fixpoint forEach {A : Type} (l : list A) (f : A -> M unit) : M unit :=
  match l with
  | [] => ret tt
  | x :: r => f x ;; forEach r f
  end.

(** ** Collaborators that live outside [fractal.js] *)

(** The argument of [addSrc]: a path or an array of paths. *)
Inductive SrcArg : Type :=
| OnePath (p : string)
| ManyPaths (ps : list string).

(** [@frctl/utils], [@frctl/ffs], [./validate] and [./configure] are taken
    as given: path normalisation, the directory read (a promise that
    resolves, possibly with a falsy value, or rejects), the validation
    predicates (a failed check throws), and the effect of [applyConfig]. *)
Record Host : Type := mkHost {
  normalizePaths : SrcArg -> list string;
  readDir : list string -> Result (option Data);
  valid_config : Value -> bool;
  valid_src : string -> bool;
  valid_method : string -> bool;
  applyConfig : Value -> M unit
}.

(** ** The Fractal class *)

Definition set_plugins (ps : list Plugin) (t : Target) : Target :=
  mkTarget ps (methods t) (state t).
Definition set_methods (ms : list Method) (t : Target) : Target :=
  mkTarget (plugins t) ms (state t).
Definition set_state (c : option Collection) (t : Target) : Target :=
  mkTarget (plugins t) (methods t) c.

Definition has_listener (ev : string) (e : Engine) : bool :=
  existsb (String.eqb ev) (listeners e).

(** [EventEmitter2#on]. *)
Definition on (ev : string) : M unit := modify (add_listener ev).

(** What [emit('error', err)] throws when nobody listens: the error
    itself when it is an [Error], a generic one otherwise. *)
Definition uncaught (err : Value) : Value :=
  match err with
  | VError _ => err
  | _ => VError "Uncaught, unspecified 'error' event."
  end.

(** [EventEmitter2#emit]: listeners are observers and return normally; an
    ['error'] event nobody listens to is thrown at the emitter's caller. *)
Definition emit (ev : Event) : M unit :=
  match ev with
  | EvError err =>
      heard <- gets (has_listener "error") ;;
      if heard : bool then tell (Emitted ev) else throw (uncaught err)
  | _ => tell (Emitted ev)
  end.

(** [log(message, ...args)], lines 240-245: [args] is [level, data] when
    it starts with a string and [data, level] otherwise; the event is
    [log.<level>] with [(message, data, level)]. *)
Definition log (message : string) (args : list Value) : M unit :=
  let '(level, data) :=
    match args with
    | VStr s :: rest => (VStr s, nth 0 rest VUndefined)
    | _ => (nth 0 (rev args) VUndefined, nth 1 (rev args) VUndefined)
    end in
  let level := if truthy level then level else VStr "debug" in
  emit (EvLog level message data).

(** A validator of [./validate]: throws its typed error when the check
    fails. *)
Definition validate (ok : bool) (kind : string) : M unit :=
  if ok then ret tt else throw (VError kind).

(** Modelled from the spec: [validate.entityType] is not among the
    sources.  A target name is one of [files] and [components]; any other
    name fails, and [this[target]] is the container so named. *)
Definition entityType (target_name : string) : M TargetName :=
  if target_name =? "files" then ret Files
  else if target_name =? "components" then ret Components
  else throw (VError "InvalidEntityType").

(** A parameter with the default ['components']. *)
Definition or_components (target_name : option string) : string :=
  match target_name with
  | Some t => t
  | None => "components"
  end.

(** [input || []]: a falsy result of the read stands for no records. *)
Definition or_empty (input : option Data) : Data :=
  match input with
  | Some d => d
  | None => []
  end.

Section Fractal.

Variable host : Host.

(** [configure(config = {})], lines 69-72. *)
Definition configure (config : Value) : M unit :=
  let config := match config with VUndefined => VObject [] | c => c end in
  log "Applying configuration" [config] ;;
  applyConfig host config.

(** The object after the [refs.*.set(this, ...)] calls of the constructor:
    two empty targets with a [null] state, the transformer [() => []], no
    source list, no listener. *)
Definition initial (ref : EngineRef) : Engine :=
  mkEngine ref None (mkTarget [] [] None) (mkTarget [] [] None)
           (fun _ => Return []) [].

(** [constructor(config)], lines 32-61; [new Fractal(config)] runs it on
    [initial ref]. *)
Definition constructor (config : Value) : M unit :=
  validate (valid_config host config) "InvalidConfig" ;;
  (if truthy config then configure config else ret tt) ;;
  on "error".

(** [addSrc(src)], lines 80-89. *)
Definition addSrc (s : SrcArg) : M unit :=
  let toAdd := normalizePaths host s in
  sources <- gets src ;;
  forEach toAdd (fun p =>
    validate (valid_src host p) "InvalidSrc" ;;
    log ("Adding src: " ++ p) []) ;;
  modify (set_src (sources ++ toAdd)).

(** [addPlugin(plugin, target = 'components')], lines 98-102. *)
Definition addPlugin (plugin : Plugin) (target_name : option string) : M unit :=
  t <- entityType (or_components target_name) ;;
  modify (fun e => set_target t (set_plugins (use plugin (plugins (target t e))) (target t e)) e).

(** [addMethod(name, handler, target = 'components')], lines 115-121. *)
Definition addMethod (name : string) (handler : Handler) (target_name : option string)
  : M unit :=
  validate (valid_method host name) "InvalidMethod" ;;
  t <- entityType (or_components target_name) ;;
  this <- gets self ;;
  let wrappedHandler := mkWrapped handler this in
  modify (fun e => set_target t
            (set_methods (add (mkMethod name wrappedHandler) (methods (target t e)))
                         (target t e)) e).

(** [addExtension(extension)], lines 140-144: the extension is run on the
    engine at once. *)
Definition addExtension (extension : M unit) : M unit := extension.

(** [setTransformer(transformer)], lines 165-169; [validate.transformer]
    accepts every function. *)
Definition setTransformer (f : Transformer) : M unit :=
  modify (set_transformer f).

(** *** Calling an attached method *)

(** Calling [(...args) => handler(args, this.state, this)], line 118.  An
    arrow function ignores the receiver it is called with; [this.state] is
    the [state] getter of the engine it closed over, evaluated when the
    call happens: [now] is that engine at that moment.  The inner call
    [handler(args, ...)] has no receiver. *)
Definition call_wrapped (w : Wrapped) (receiver : JsThis) (args : list Value)
           (now : Engine) : Result Value :=
  w_handler w ThisUndefined args (state_getter now) (w_engine w).

(** Calling a bound function calls its target with the bound receiver. *)
Definition call_bound (b : BoundFn) (args : list Value) (now : Engine)
  : Result Value :=
  call_wrapped (b_target b) (b_this b) args now.


(** [collection.toArray()]: the method hung at [toArray] when there is
    one, the Collection's own otherwise, which returns the records. *)
Definition toArray (c : Collection) (now : Engine) : Result Value :=
  match member_fn ["toArray"] (members c) with
  | Some b => call_bound b [] now
  | None => Return (VArray (items c))
  end.

(** The two functions a thenable's [then] is called with. *)
Definition resolving_functions : list Value :=
  [VFunction "resolvePromise"; VFunction "rejectPromise"].

(** Resolving a promise with a Collection, as the [then] callback of
    [mutate] does by returning it: a Collection with a callable [then] is
    taken for a thenable, and [then] is called with the resolving
    functions; this is the result of that call, if it is made. *)
Definition taken_over (c : Collection) (now : Engine) : option (Result Value) :=
  match member_fn ["then"] (members c) with
  | Some b => Some (call_bound b resolving_functions now)
  | None => None
  end.

(** *** parse *)

(** What other jobs may do to the engine while a parse is suspended. *)
Inductive Op : Type :=
| OpAddSrc (s : SrcArg)
| OpAddPlugin (plugin : Plugin) (target_name : option string)
| OpAddMethod (name : string) (handler : Handler) (target_name : option string)
| OpSetTransformer (f : Transformer)
| OpOn (ev : string).

Definition run_op (o : Op) : M unit :=
  match o with
  | OpAddSrc s => addSrc s
  | OpAddPlugin p t => addPlugin p t
  | OpAddMethod n h t => addMethod n h t
  | OpSetTransformer f => setTransformer f
  | OpOn ev => on ev
  end.

(** The operations run in order; one that throws throws at its own caller,
    not into the parse. *)
Definition interleave (ops : list Op) : M unit :=
  forEach ops (fun o => try_catch (run_op o) (fun _ => ret tt)).

(** The suspension points of one parse: while the directory is read, while
    the files pipeline runs, while the transformer runs, while the
    components pipeline runs. *)
Record Schedule : Type := mkSchedule {
  during_read : list Op;
  during_files : list Op;
  during_transformer : list Op;
  during_components : list Op
}.

Definition idle : Schedule := mkSchedule [] [] [] [].

(** The loop [for (const method of target.methods) _.set(collection,
    method.name, method.handler.bind(collection))], lines 197-199. *)
Definition bind_methods (ms : list Method) (c : Collection) : Collection :=
  fold_left (fun collection method =>
               lodash_set collection (name method) (bind_to (handler method) collection))
            ms c.

(** [target.state = collection]. *)
Definition publish (t : TargetName) (c : Collection) (e : Engine) : Engine :=
  set_target t (set_state (Some c) (target t e)) e.

(** [mutate(data, target)], lines 193-203.  [process] is called at once,
    with the plugins registered at that moment; the methods are read when
    its promise has resolved, [meanwhile] being what happened in between.
    The [then] callback returns the Collection, so the promise [mutate]
    returns is resolved with it: the value is the Collection the next
    [then] callback receives, or [None] when that promise never settles.
    A Collection taken for a thenable rejects the promise with what its
    [then] throws; when [then] returns, the promise waits for a call of
    the resolving functions, which a [Handler] does not make. *)
Definition mutate (meanwhile : list Op) (data : Data) (t : TargetName)
  : M (option Collection) :=
  ps <- gets (fun e => plugins (target t e)) ;;
  let processing := process ps data in
  interleave meanwhile ;;
  items <- await processing ;;
  ms <- gets (fun e => methods (target t e)) ;;
  let collection := bind_methods ms (new_Collection items) in
  modify (publish t collection) ;;
  now <- gets (fun e => e) ;;
  match taken_over collection now with
  | None => ret (Some collection)
  | Some called => _ <- await called ;; ret None
  end.

(** [callback(...)]: what the callback throws is thrown at its caller. *)
Definition call (callback : Callback) (args : CbArgs) : M unit :=
  tell (Called args) ;;
  await (callback args).

(** [parse(callback)] with a callback, lines 189-217.  [validate.callback]
    accepts every function, and a [Callback] is one.  [fs.readDir(this.src)]
    is called before [parse] returns; the rest runs in the [then] callbacks
    of its promise, and the [catch] at the end of the chain handles what
    any of them throws.  Where a promise of the chain never settles, none
    of what follows it happens, the [catch] handler included. *)
Definition parse_callback (callback : Callback) (sch : Schedule) : M unit :=
  emit EvParseStart ;;
  paths <- gets src ;;
  let reading := readDir host paths in
  detached
    (try_catch
       (interleave (during_read sch) ;;
        input <- await reading ;;
        resolved <- mutate (during_files sch) (or_empty input) Files ;;
        match resolved with
        | None => ret tt
        | Some filesColl =>
            transform <- gets transformer ;;
            now <- gets (fun e => e) ;;
            records <- await (toArray filesColl now) ;;
            let transforming := transform records in
            interleave (during_transformer sch) ;;
            output <- await transforming ;;
            resolved <- mutate (during_components sch) output Components ;;
            match resolved with
            | None => ret tt
            | Some _ =>
                c <- gets (fun e => state (components e)) ;;
                f <- gets (fun e => state (files e)) ;;
                emit (EvParseComplete c f) ;;
                call callback (CbSuccess c f)
            end
        end)
       (fun err =>
          emit (EvError err) ;;
          call callback (CbFailure err))).

(** A field of the object a promise resolves to. *)
Inductive Slot : Type :=
| SUndefined
| SNull
| SCollection (c : Collection).

Definition slot (c : option Collection) : Slot :=
  match c with
  | Some x => SCollection x
  | None => SNull
  end.

Inductive Settlement : Type :=
| Pending
| Resolved (components_state files_state : Slot)
| Rejected (reason : Value).

(** The callback of the promise form, [(err, components, files) => { if
    (err) return reject(err); resolve({components, files}) }], as the
    settlement it asks for. *)
Definition settle (args : CbArgs) : Settlement :=
  match args with
  | CbSuccess c f => Resolved (slot c) (slot f)
  | CbFailure err =>
      if truthy err then Rejected err else Resolved SUndefined SUndefined
  end.

(** It never throws. *)
Definition promise_callback : Callback := fun _ => Return tt.

(** A promise keeps its first settlement. *)
Fixpoint settlement (out : list Effect) : Settlement :=
  match out with
  | [] => Pending
  | Called args :: _ => settle args
  | _ :: rest => settlement rest
  end.

(** [parse(callback)], lines 177-218: without a callback, a promise
    wrapped around the callback form (lines 178-187); the value is the
    settlement that promise reaches.  With a callback nothing is returned. *)
Definition parse (callback : option Callback) (sch : Schedule)
  : M (option Settlement) :=
  match callback with
  | None =>
      fun e =>
        match parse_callback promise_callback sch e with
        | (Return _, e', out) => (Return (Some (settlement out)), e', out)
        | (Throw err, e', out) => (Return (Some (Rejected err)), e', out)
        end
  | Some cb => parse_callback cb sch ;; ret None
  end.

End Fractal.

(** ** Running a computation *)

Definition outcome {A : Type} (m : M A) (e : Engine) : Result A := fst (fst (m e)).
Definition exec {A : Type} (m : M A) (e : Engine) : Engine := snd (fst (m e)).
Definition output {A : Type} (m : M A) (e : Engine) : list Effect := snd (m e).

(** The engine and the effects left behind by the operations of a
    suspension point. *)
Definition after (host : Host) (ops : list Op) (e : Engine) : Engine :=
  exec (interleave host ops) e.
Definition noise (host : Host) (ops : list Op) (e : Engine) : list Effect :=
  output (interleave host ops) e.

(** The completion callback's invocations, in order. *)
Fixpoint calls (out : list Effect) : list CbArgs :=
  match out with
  | [] => []
  | Called args :: rest => args :: calls rest
  | _ :: rest => calls rest
  end.

(** The target a registration names, when the name is valid. *)
Definition target_named (target_name : option string) : option TargetName :=
  let n := or_components target_name in
  if n =? "files" then Some Files
  else if n =? "components" then Some Components
  else None.




(** ** The decision tree of one parse

    [parse_callback] unfolded stage by stage: which engine each stage
    reads, and the effects in the order they happen.  [caught] is the
    [catch] handler at the end of the chain. *)

Definition caught (callback : Callback) (err : Value) (e : Engine) : list Effect :=
  if has_listener "error" e
  then Emitted (EvError err) :: Called (CbFailure err) ::
       match callback (CbFailure err) with
       | Return _ => []
       | Throw x => [UnhandledRejection x]
       end
  else [UnhandledRejection (uncaught err)].

(** After both collections are published: [parse.complete], the callback,
    and the [catch] handler again if the callback throws. *)
Definition completed (callback : Callback) (e : Engine) : list Effect :=
  let args := CbSuccess (state (components e)) (state (files e)) in
  Emitted (EvParseComplete (state (components e)) (state (files e))) ::
  Called args ::
  match callback args with
  | Return _ => []
  | Throw x => caught callback x e
  end.

(** How the chain ends before its last two steps: every stage went
    through, or a promise of the chain never settles, or a stage failed. *)
Inductive Ending : Type :=
| Completes
| Stalls
| Fails (err : Value).

(** What a Collection taken for a thenable makes of the chain. *)
Definition adoption (c : Collection) (now : Engine) : option Ending :=
  match taken_over c now with
  | None => None
  | Some (Return _) => Some Stalls
  | Some (Throw err) => Some (Fails err)
  end.

(** The stages up to publication: the engine they leave, what the
    suspension points emitted, and how they end. *)
Definition stages (host : Host) (sch : Schedule) (e : Engine)
  : Engine * list Effect * Ending :=
  let e1 := after host (during_read sch) e in
  let o1 := noise host (during_read sch) e in
  match readDir host (src e) with
  | Throw err => (e1, o1, Fails err)
  | Return input =>
    let e2 := after host (during_files sch) e1 in
    let o2 := o1 ++ noise host (during_files sch) e1 in
    match process (plugins (files e1)) (or_empty input) with
    | Throw err => (e2, o2, Fails err)
    | Return filed =>
      let fc := bind_methods (methods (files e2)) (new_Collection filed) in
      let e3 := publish Files fc e2 in
      match adoption fc e3 with
      | Some ending => (e3, o2, ending)
      | None =>
        match toArray fc e3 with
        | Throw err => (e3, o2, Fails err)
        | Return records =>
          let e4 := after host (during_transformer sch) e3 in
          let o4 := o2 ++ noise host (during_transformer sch) e3 in
          match transformer e3 records with
          | Throw err => (e4, o4, Fails err)
          | Return out =>
            let e5 := after host (during_components sch) e4 in
            let o5 := o4 ++ noise host (during_components sch) e4 in
            match process (plugins (components e4)) out with
            | Throw err => (e5, o5, Fails err)
            | Return made =>
              let cc := bind_methods (methods (components e5)) (new_Collection made) in
              let e6 := publish Components cc e5 in
              match adoption cc e6 with
              | Some ending => (e6, o5, ending)
              | None => (e6, o5, Completes)
              end
            end
          end
        end
      end
    end
  end.

Definition parse_steps (host : Host) (callback : Callback) (sch : Schedule) (e : Engine)
  : Engine * list Effect :=
  match stages host sch e with
  | (e', o, Fails err) => (e', o ++ caught callback err e')
  | (e', o, Stalls) => (e', o)
  | (e', o, Completes) => (e', o ++ completed callback e')
  end.

(** The callback the chain ends in, under either calling convention. *)
Definition callback_of (callback : option Callback) : Callback :=
  match callback with
  | Some cb => cb
  | None => promise_callback
  end.



(** ** Scenarios *)

(** A host that takes paths as they are, accepts every configuration, and
    reads what [contents] says is on disk. *)
Definition plain_paths (s : SrcArg) : list string :=
  match s with
  | OnePath p => [p]
  | ManyPaths ps => ps
  end.

Definition disk (contents : list string -> Result (option Data)) : Host :=
  mkHost plain_paths contents (fun _ => true) (fun _ => true) (fun _ => true)
         (fun _ => ret tt).

(** A disk holding the same records whatever the source list. *)
Definition holding (records : Data) : Host := disk (fun _ => Return (Some records)).


(** A disk that cannot be read. *)
Definition unreadable (err : Value) : Host := disk (fun _ => Throw err).

(** [new Fractal()] as object number 0. *)
Definition fresh (host : Host) : Engine := exec (constructor host VUndefined) (initial 0).

(** [files => files], on the arrays a transformer is handed when
    [toArray] is the Collection's own.  Handed anything else it gives that
    value back, which is no record set; what the components stage makes of
    it (in modules that are not among the sources) is stood for by a
    TypeError. *)
Definition passthrough : Transformer :=
  fun handed =>
    match handed with
    | VArray records => Return records
    | _ => Throw (VError "not an array")
    end.

(** A callback that only observes. *)
Definition observer : Callback := fun _ => Return tt.

Definition numbered (n : Z) : Value := VObject [("id", VNum n)].




(** A plugin that sets [key: value] on every record. *)
Definition setting (key : string) (value : Value) : Plugin :=
  fun records =>
    Return (map (fun r => match r with
                          | VObject props => VObject (assoc_set key value props)
                          | other => other
                          end) records).

(** A plugin that sets [tag: 'seen'] on every record. *)
Definition tag_seen : Plugin := setting "tag" (VStr "seen").


(** A plugin whose promise rejects with [reason]. *)
Definition rejecting (reason : Value) : Plugin := fun _ => Throw reason.

(** A callback that throws when handed a result. *)
Definition fussy : Callback :=
  fun args =>
    match args with
    | CbSuccess _ _ => Throw (VError "oops")
    | CbFailure _ => Return tt
    end.


(** [new Fractal()] with the pass-through transformer set. *)
Definition plain (host : Host) : Engine := exec (setTransformer passthrough) (fresh host).




Definition failing_files (reason : Value) : Engine :=
  exec (addPlugin (rejecting reason) (Some "files")) (plain (holding [numbered 1])).






(** ** What a list of registrations leaves in each registry *)



Definition src_op (o : Op) : Prop :=
  match o with
  | OpAddSrc _ => True
  | _ => False
  end.


(** The paths of a list up to the first one that fails validation. *)
Fixpoint accepted_prefix (host : Host) (l : list string) : list string :=
  match l with
  | [] => []
  | p :: rest => if valid_src host p then p :: accepted_prefix host rest else []
  end.

(** The event [log(message)] emits. *)
Definition logged (message : string) : Effect :=
  Emitted (EvLog (VStr "debug") message VUndefined).

Definition is_string (v : Value) : bool :=
  match v with
  | VStr _ => true
  | _ => false
  end.

(** ** watch *)

(** What [watch] can be called with: nothing, a path, an array of paths, a
    function. *)
Inductive WatchArg : Type :=
| WUndefined
| WPath (p : string)
| WPaths (ps : list string)
| WFunction (id : nat).

(** ToBoolean on such an argument: an array and a function are truthy,
    the empty string is not. *)
Definition given (a : WatchArg) : bool :=
  match a with
  | WUndefined => false
  | WPath p => negb (p =? "")
  | WPaths _ | WFunction _ => true
  end.

(** The listener handed to [fs.watch]: the one given, or [() => {}]. *)
Inductive Listener : Type :=
| Noop
| Given (a : WatchArg).

(** [watch(...args)], lines 225-230, as the call to [fs.watch] it makes:
    the paths and the listener.  [utils.toArray] of [@frctl/utils] is taken
    as given. *)
Definition watch (utils_toArray : WatchArg -> list WatchArg) (args : list WatchArg)
           (e : Engine) : list WatchArg * Listener :=
  let callback := nth 0 (rev args) WUndefined in
  let paths := nth 1 (rev args) WUndefined in
  let paths := utils_toArray (if given paths then paths else WPaths []) in
  let callback := if given callback then Given callback else Noop in
  (map WPath (src e) ++ paths, callback).

(** ** addAdapter *)

Section Adapters.

(** [./adapters], [./adapters/plugin] and [./adapters/render] are taken as
    given: the registry and what [add] does to it (it may throw), and the
    plugin and the render handler made for an adapter. *)
Variable Adapter : Type.
Variable Registry : Type.
Variable adapter_name : Adapter -> string.
Variable adapters_add : Adapter -> Registry -> Result unit * Registry.
Variable adapter_plugin : Adapter -> Plugin.
Variable adapter_render : Adapter -> Handler.
Variable host : Host.

(** [addAdapter(adapter)], lines 152-157, on the registry and the engine. *)
Definition addAdapter (adapter : Adapter) (reg : Registry) (e : Engine)
  : Result unit * (Registry * Engine) * list Effect :=
  match adapters_add adapter reg with
  | (Throw err, reg') => (Throw err, (reg', e), [])
  | (Return _, reg') =>
      match (addPlugin (adapter_plugin adapter) (Some "files") ;;
             addMethod host ("render." ++ adapter_name adapter)
                       (adapter_render adapter) None) e with
      | (r, e', out) => (r, (reg', e'), out)
      end
  end.

End Adapters.

Arguments addAdapter {Adapter Registry} _ _ _ _ _ _ _ _.

(** ** More scenarios *)



(** A disk whose read resolves with nothing. *)
Definition silent : Host := disk (fun _ => Return None).


(** A host that refuses the empty source path and the method name
    [render.], on an empty disk. *)
Definition strict : Host :=
  mkHost plain_paths (fun _ => Return (Some [])) (fun _ => true)
         (fun p => negb (p =? "")) (fun n => negb (n =? "render."))
         (fun _ => ret tt).

(** Adapters known by their name alone, in a registry that lists the names
    and takes every adapter; the render handler of an adapter answers with
    its name. *)
Definition names_add (a : string) (reg : list string) : Result unit * list string :=
  (Return tt, reg ++ [a]).

Definition names_render (a : string) : Handler := fun _ _ _ _ => Return (VStr a).

Definition add_named (host : Host) (a : string) (reg : list string) (e : Engine)
  : Result unit * (list string * Engine) * list Effect :=
  addAdapter (fun a => a) names_add (fun _ => tag_seen) names_render host a reg e.




(** A host whose configuration step emits an [error] event: an extension
    of the configuration that reports a problem. *)
Definition complaining (err : Value) : Host :=
  mkHost plain_paths (fun _ => Return (Some [])) (fun _ => true) (fun _ => true)
         (fun _ => true) (fun _ => emit (EvError err)).

(** * Properties *)

(** ** Running the monad *)

Lemma run_eq {A : Type} (m : M A) (e : Engine) :
  m e = (outcome m e, exec m e, output m e).
Proof. unfold outcome, exec, output. destruct (m e) as [[r e'] o]. reflexivity. Qed.

(** Closes a branch of the chain that ended in its [catch] handler. *)
Ltac chain_ends :=
  destruct (has_listener _ _); cbn;
  [ destruct (_ (CbFailure _)) as [[]|?]; cbn | ];
  rewrite ?app_nil_r, <- ?app_assoc; reflexivity.

Section Properties.

Variable host : Host.

#[local] Arguments interleave : simpl never.
#[local] Arguments process : simpl never.
#[local] Arguments bind_methods : simpl never.
#[local] Arguments publish : simpl never.
#[local] Arguments has_listener : simpl never.
#[local] Arguments taken_over : simpl never.
#[local] Arguments toArray : simpl never.
#[local] Arguments adoption : simpl never.

(** The operations of a suspension point never throw into the parse. *)
Lemma interleave_returns (ops : list Op) :
  forall e, outcome (interleave host ops) e = Return tt.
Proof.
  induction ops as [|o ops IH]; intro e; [reflexivity|].
  specialize (IH (exec (run_op host o) e)). revert IH.
  unfold outcome, exec, interleave. cbn [forEach]. unfold bind at 1, try_catch.
  destruct (run_op host o e) as [[[u|err] e1] o1]; cbn;
    destruct (forEach ops _ e1) as [[r e2] o2]; cbn; auto.
Qed.

Lemma interleave_eq (ops : list Op) (e : Engine) :
  interleave host ops e = (Return tt, after host ops e, noise host ops e).
Proof.
  unfold after, noise. rewrite (run_eq (interleave host ops) e) at 1.
  now rewrite interleave_returns.
Qed.

Lemma after_nil (e : Engine) : after host [] e = e.
Proof. reflexivity. Qed.

Lemma noise_nil (e : Engine) : noise host [] e = [].
Proof. reflexivity. Qed.

Lemma after_cons (o : Op) (ops : list Op) (e : Engine) :
  after host (o :: ops) e = after host ops (exec (run_op host o) e).
Proof.
  unfold after, exec, interleave. cbn [forEach]. unfold bind at 1, try_catch.
  destruct (run_op host o e) as [[[u|err] e1] o1]; cbn;
    destruct (forEach ops _ e1) as [[r e2] o2]; reflexivity.
Qed.

Lemma noise_cons (o : Op) (ops : list Op) (e : Engine) :
  noise host (o :: ops) e =
  output (run_op host o) e ++ noise host ops (exec (run_op host o) e).
Proof.
  unfold noise, output, exec, interleave. cbn [forEach]. unfold bind at 1, try_catch.
  destruct (run_op host o e) as [[[u|err] e1] o1]; cbn;
    destruct (forEach ops _ e1) as [[r e2] o2]; cbn; now rewrite ?app_nil_r.
Qed.

Lemma calls_app (a b : list Effect) : calls (a ++ b) = calls a ++ calls b.
Proof.
  induction a as [|x a IH]; [reflexivity|].
  destruct x; cbn; now rewrite IH.
Qed.

Lemma In_calls (args : CbArgs) (out : list Effect) :
  In (Called args) out <-> In args (calls out).
Proof.
  induction out as [|x out IH]; [reflexivity|].
  destruct x as [ev|a|r]; cbn; rewrite <- IH.
  - split; [intros [H|H]; [discriminate|exact H] | now right].
  - split; (intros [H|H]; [left; congruence | now right]).
  - split; [intros [H|H]; [discriminate|exact H] | now right].
Qed.

Lemma settlement_calls (out : list Effect) :
  settlement out = match calls out with
                   | [] => Pending
                   | args :: _ => settle args
                   end.
Proof.
  induction out as [|x out IH]; [reflexivity|]. destruct x; cbn; auto.
Qed.

(** [parse_callback] is its decision tree: what fails inside the chain
    ends in [caught], and a chain that stalls ends there. *)
Lemma parse_callback_steps (callback : Callback) (sch : Schedule) (e : Engine) :
  parse_callback host callback sch e =
  (Return tt, fst (parse_steps host callback sch e),
   Emitted EvParseStart :: snd (parse_steps host callback sch e)).
Proof.
  unfold parse_callback, parse_steps, stages, completed, detached, try_catch, mutate,
    call, caught, emit, bind, adoption.
  cbn.
  rewrite interleave_eq. cbn.
  destruct (readDir host (src e)) as [input|err]; cbn; [|chain_ends].
  rewrite interleave_eq. cbn.
  destruct (process _ _) as [filed|err]; cbn; [|chain_ends].
  destruct (taken_over _ _) as [[v|err]|]; cbn;
    [now rewrite !app_nil_r | chain_ends |].
  destruct (toArray _ _) as [records|err]; cbn; [|chain_ends].
  rewrite interleave_eq. cbn.
  destruct (transformer _ _) as [out|err]; cbn; [|chain_ends].
  rewrite interleave_eq. cbn.
  destruct (process _ _) as [made|err]; cbn; [|chain_ends].
  destruct (taken_over _ _) as [[v|err]|]; cbn;
    [now rewrite !app_nil_r, <- !app_assoc | chain_ends |].
  destruct (callback _) as [[]|x]; cbn; [|chain_ends].
  rewrite !app_nil_r, <- !app_assoc. reflexivity.
Qed.

(** ** The configuration-time mutators *)

Lemma log_run (message : string) (e : Engine) :
  log message [] e = (Return tt, e, [Emitted (EvLog (VStr "debug") message VUndefined)]).
Proof. reflexivity. Qed.

Lemma validated_paths_run (l : list string) (e : Engine) :
  exists o,
    calls o = [] /\
    forEach l (fun p => validate (valid_src host p) "InvalidSrc" ;;
                        log ("Adding src: " ++ p) []) e
    = (if forallb (valid_src host) l then Return tt else Throw (VError "InvalidSrc"), e, o).
Proof.
  induction l as [|p l (o & Q & IH)]; [now exists []|].
  cbn [forEach forallb]. unfold bind at 1. unfold bind at 1.
  destruct (valid_src host p); cbn [andb].
  - change (validate true "InvalidSrc" e) with (Return tt, e, @nil Effect).
    cbv beta iota. rewrite log_run, IH. eexists. split; [|reflexivity]. exact Q.
  - eexists. split; [|reflexivity]. reflexivity.
Qed.

Lemma addSrc_exec (s : SrcArg) (e : Engine) :
  exec (addSrc host s) e =
  if forallb (valid_src host) (normalizePaths host s)
  then set_src (src e ++ normalizePaths host s) e
  else e.
Proof.
  unfold exec, addSrc. unfold bind at 1.
  change (gets src e) with (Return (src e), e, @nil Effect). cbv beta iota.
  unfold bind at 1.
  destruct (validated_paths_run (normalizePaths host s) e) as (o & _ & ->).
  destruct (forallb _ _); reflexivity.
Qed.

Lemma addSrc_quiet (s : SrcArg) (e : Engine) : calls (output (addSrc host s) e) = [].
Proof.
  unfold output, addSrc. unfold bind at 1.
  change (gets src e) with (Return (src e), e, @nil Effect). cbv beta iota.
  unfold bind at 1.
  destruct (validated_paths_run (normalizePaths host s) e) as (o & Q & ->).
  destruct (forallb _ _); cbn; rewrite ?app_nil_r; exact Q.
Qed.

Lemma entityType_run (tn : option string) (e : Engine) :
  entityType (or_components tn) e =
  (match target_named tn with
   | Some t => Return t
   | None => Throw (VError "InvalidEntityType")
   end, e, []).
Proof.
  unfold entityType, target_named.
  destruct (or_components tn =? "files"); [reflexivity|].
  destruct (or_components tn =? "components"); reflexivity.
Qed.

Lemma addPlugin_exec (p : Plugin) (tn : option string) (e : Engine) :
  exec (addPlugin p tn) e =
  match target_named tn with
  | Some t => set_target t (set_plugins (use p (plugins (target t e))) (target t e)) e
  | None => e
  end.
Proof.
  unfold exec, addPlugin, bind. rewrite entityType_run.
  destruct (target_named tn); reflexivity.
Qed.

Lemma addMethod_exec (n : string) (h : Handler) (tn : option string) (e : Engine) :
  exec (addMethod host n h tn) e =
  if valid_method host n
  then match target_named tn with
       | Some t => set_target t
                     (set_methods (add (mkMethod n (mkWrapped h (self e)))
                                       (methods (target t e)))
                                  (target t e)) e
       | None => e
       end
  else e.
Proof.
  unfold exec, addMethod, validate. unfold bind at 1.
  destruct (valid_method host n); cbn; [|reflexivity].
  unfold bind. rewrite entityType_run.
  destruct (target_named tn); reflexivity.
Qed.

Lemma addPlugin_quiet (p : Plugin) (tn : option string) (e : Engine) :
  output (addPlugin p tn) e = [].
Proof.
  unfold output, addPlugin, bind. rewrite entityType_run.
  destruct (target_named tn); reflexivity.
Qed.

Lemma addMethod_quiet (n : string) (h : Handler) (tn : option string) (e : Engine) :
  output (addMethod host n h tn) e = [].
Proof.
  unfold output, addMethod, validate. unfold bind at 1.
  destruct (valid_method host n); cbn; [|reflexivity].
  unfold bind. rewrite entityType_run.
  destruct (target_named tn); reflexivity.
Qed.

Lemma run_op_quiet (o : Op) (e : Engine) : calls (output (run_op host o) e) = [].
Proof.
  destruct o as [s|p tn|n h tn|f|ev]; cbn [run_op].
  - apply addSrc_quiet.
  - now rewrite addPlugin_quiet.
  - now rewrite addMethod_quiet.
  - reflexivity.
  - reflexivity.
Qed.

Lemma run_op_self (o : Op) (e : Engine) : self (exec (run_op host o) e) = self e.
Proof.
  destruct o as [s|p tn|n h tn|f|ev]; cbn [run_op].
  - rewrite addSrc_exec. now destruct (forallb _ _).
  - rewrite addPlugin_exec. now destruct (target_named tn) as [[]|].
  - rewrite addMethod_exec. destruct (valid_method host n); [|reflexivity].
    now destruct (target_named tn) as [[]|].
  - reflexivity.
  - reflexivity.
Qed.

Lemma run_op_listeners (o : Op) (e : Engine) :
  listeners (exec (run_op host o) e) =
  listeners e ++ match o with OpOn ev => [ev] | _ => [] end.
Proof.
  destruct o as [s|p tn|n h tn|f|ev]; cbn [run_op].
  - rewrite addSrc_exec. destruct (forallb _ _); cbn; now rewrite app_nil_r.
  - rewrite addPlugin_exec. destruct (target_named tn) as [[]|]; cbn; now rewrite app_nil_r.
  - rewrite addMethod_exec. destruct (valid_method host n); [|now rewrite app_nil_r].
    destruct (target_named tn) as [[]|]; cbn; now rewrite app_nil_r.
  - cbn. now rewrite app_nil_r.
  - reflexivity.
Qed.

Lemma has_listener_app (ev : string) (e e' : Engine) (l : list string) :
  listeners e' = listeners e ++ l ->
  has_listener ev e = true -> has_listener ev e' = true.
Proof.
  unfold has_listener. intros -> H. rewrite existsb_app, H. reflexivity.
Qed.

(** Nothing that happens while a parse is suspended removes a listener. *)
Lemma after_keeps_listener (ev : string) (ops : list Op) :
  forall e, has_listener ev e = true -> has_listener ev (after host ops e) = true.
Proof.
  induction ops as [|o ops IH]; intros e H; [exact H|].
  rewrite after_cons. apply IH.
  eapply has_listener_app; [apply run_op_listeners | exact H].
Qed.


Lemma noise_quiet (ops : list Op) : forall e, calls (noise host ops e) = [].
Proof.
  induction ops as [|o ops IH]; intro e; [reflexivity|].
  now rewrite noise_cons, calls_app, run_op_quiet, IH.
Qed.

Lemma after_self (ops : list Op) : forall e, self (after host ops e) = self e.
Proof.
  induction ops as [|o ops IH]; intro e; [reflexivity|].
  now rewrite after_cons, IH, run_op_self.
Qed.

Lemma has_listener_publish (ev : string) (t : TargetName) (c : Collection) (e : Engine) :
  has_listener ev (publish t c e) = has_listener ev e.
Proof. now destruct t. Qed.


(** ** Both calling conventions run the same chain *)

Lemma parse_run (callback : option Callback) (sch : Schedule) (e : Engine) :
  parse host callback sch e =
  (Return match callback with
          | Some _ => None
          | None => Some (settlement (snd (parse_steps host promise_callback sch e)))
          end,
   fst (parse_steps host (callback_of callback) sch e),
   Emitted EvParseStart :: snd (parse_steps host (callback_of callback) sch e)).
Proof.
  destruct callback as [cb|]; unfold parse.
  - unfold bind. rewrite parse_callback_steps. cbn. now rewrite app_nil_r.
  - now rewrite parse_callback_steps.
Qed.

(** The engine a parse leaves behind does not depend on the callback. *)
(** The engine a parse leaves behind does not depend on the callback. *)
Lemma parse_steps_engine (callback : Callback) (sch : Schedule) (e : Engine) :
  fst (parse_steps host callback sch e) = fst (fst (stages host sch e)).
Proof.
  unfold parse_steps. now destruct (stages host sch e) as [[e' o] [| |err]].
Qed.

Lemma parse_exec (callback : option Callback) (sch : Schedule) (e : Engine) :
  exec (parse host callback sch) e = fst (fst (stages host sch e)).
Proof. unfold exec. rewrite parse_run. apply parse_steps_engine. Qed.

Lemma parse_output (callback : option Callback) (sch : Schedule) (e : Engine) :
  output (parse host callback sch) e =
  Emitted EvParseStart :: snd (parse_steps host (callback_of callback) sch e).
Proof. unfold output. now rewrite parse_run. Qed.

(** What the suspension points emit is no callback invocation; the chain
    keeps the engine's identity and its listeners. *)
Lemma stages_frame (sch : Schedule) (e : Engine) :
  calls (snd (fst (stages host sch e))) = [] /\
  self (fst (fst (stages host sch e))) = self e /\
  (has_listener "error" e = true ->
   has_listener "error" (fst (fst (stages host sch e))) = true).
Proof.
  unfold stages.
  pose proof (noise_quiet (during_read sch) e) as Q1.
  pose proof (after_self (during_read sch) e) as S1.
  pose proof (after_keeps_listener "error" (during_read sch) e) as L1.
  set (e1 := after host (during_read sch) e) in *.
  destruct (readDir host (src e)) as [input|err]; cbn [fst snd]; [|auto 10].
  pose proof (noise_quiet (during_files sch) e1) as Q2.
  pose proof (after_self (during_files sch) e1) as S2.
  pose proof (after_keeps_listener "error" (during_files sch) e1) as L2.
  set (e2 := after host (during_files sch) e1) in *.
  destruct (process _ _) as [filed|err]; cbn [fst snd];
    [|rewrite calls_app, Q1, Q2, S2; auto 10].
  set (fc := bind_methods _ (new_Collection filed)).
  set (e3 := publish Files fc e2).
  assert (S3 : self e3 = self e) by (rewrite <- S1, <- S2; reflexivity).
  assert (L3 : has_listener "error" e = true -> has_listener "error" e3 = true).
  { intro L. unfold e3. rewrite has_listener_publish. auto 10. }
  assert (Q3 : calls (noise host (during_read sch) e ++ noise host (during_files sch) e1)
               = []) by now rewrite calls_app, Q1, Q2.
  destruct (adoption fc e3) as [ending|]; cbn [fst snd]; [auto 10|].
  destruct (toArray fc e3) as [records|err]; cbn [fst snd]; [|auto 10].
  pose proof (noise_quiet (during_transformer sch) e3) as Q4.
  pose proof (after_self (during_transformer sch) e3) as S4.
  pose proof (after_keeps_listener "error" (during_transformer sch) e3) as L4.
  set (e4 := after host (during_transformer sch) e3) in *.
  destruct (transformer _ _) as [out|err]; cbn [fst snd];
    [|rewrite calls_app, Q3, Q4, S4; auto 10].
  pose proof (noise_quiet (during_components sch) e4) as Q5.
  pose proof (after_self (during_components sch) e4) as S5.
  pose proof (after_keeps_listener "error" (during_components sch) e4) as L5.
  set (e5 := after host (during_components sch) e4) in *.
  assert (Q6 : calls ((noise host (during_read sch) e
                       ++ noise host (during_files sch) e1)
                      ++ noise host (during_transformer sch) e3) = [])
    by now rewrite calls_app, Q3, Q4.
  destruct (process _ _) as [made|err]; cbn [fst snd];
    [|rewrite calls_app, Q6, Q5, S5, S4; auto 10].
  set (cc := bind_methods _ (new_Collection made)).
  set (e6 := publish Components cc e5).
  assert (S6 : self e6 = self e) by (rewrite <- S3, <- S4, <- S5; reflexivity).
  assert (L6 : has_listener "error" e = true -> has_listener "error" e6 = true).
  { intro L. unfold e6. rewrite has_listener_publish. auto 10. }
  destruct (adoption cc e6) as [ending|]; cbn [fst snd];
    rewrite calls_app, Q6, Q5; auto 10.
Qed.

(** ** The member tree *)


















(** A Collection taken for a thenable never lets the chain through. *)
Lemma adoption_ends (c : Collection) (now : Engine) :
  adoption c now <> Some Completes.
Proof.
  unfold adoption. now destruct (taken_over c now) as [[v|err]|].
Qed.

(** A parse during which nothing else touches the engine. *)
Lemma stages_idle (e : Engine) :
  stages host idle e =
  match readDir host (src e) with
  | Throw err => (e, [], Fails err)
  | Return input =>
    match process (plugins (files e)) (or_empty input) with
    | Throw err => (e, [], Fails err)
    | Return filed =>
      let fc := bind_methods (methods (files e)) (new_Collection filed) in
      let e3 := publish Files fc e in
      match adoption fc e3 with
      | Some ending => (e3, [], ending)
      | None =>
        match toArray fc e3 with
        | Throw err => (e3, [], Fails err)
        | Return records =>
          match transformer e records with
          | Throw err => (e3, [], Fails err)
          | Return out =>
            match process (plugins (components e)) out with
            | Throw err => (e3, [], Fails err)
            | Return made =>
              let cc := bind_methods (methods (components e)) (new_Collection made) in
              let e6 := publish Components cc e3 in
              match adoption cc e6 with
              | Some ending => (e6, [], ending)
              | None => (e6, [], Completes)
              end
            end
          end
        end
      end
    end
  end.
Proof.
  unfold stages. cbn [idle during_read during_files during_transformer during_components].
  rewrite !after_nil, !noise_nil.
  destruct (readDir host (src e)) as [input|err]; [|reflexivity].
  destruct (process _ _) as [filed|err]; [|reflexivity].
  cbv zeta. rewrite !after_nil, !noise_nil.
  destruct (adoption _ _); [reflexivity|].
  destruct (toArray _ _) as [records|err]; reflexivity.
Qed.


Lemma calls_caught (callback : Callback) (err : Value) (e : Engine) :
  calls (caught callback err e) =
  if has_listener "error" e then [CbFailure err] else [].
Proof.
  unfold caught. destruct (has_listener "error" e); [|reflexivity].
  now destruct (callback (CbFailure err)).
Qed.

Lemma calls_completed (callback : Callback) (e : Engine) :
  exists more,
    calls (completed callback e)
    = CbSuccess (state (components e)) (state (files e)) :: more /\
    forall c f, ~ In (CbSuccess c f) more.
Proof.
  unfold completed. cbn [calls].
  destruct (callback _) as [u|x].
  - exists []. split; [reflexivity|]. intros c f [].
  - exists (calls (caught callback x e)). split; [reflexivity|].
    intros c f. rewrite calls_caught.
    destruct (has_listener "error" e); [intros [H|[]]; discriminate | intros []].
Qed.

(** The callback is handed a result only when every stage succeeded, and
    the result is the pair of states the engine then holds. *)
Lemma called_success (callback : option Callback) (sch : Schedule) (e : Engine)
      (c f : option Collection) :
  In (Called (CbSuccess c f)) (output (parse host callback sch) e) ->
  snd (stages host sch e) = Completes /\
  c = state (components (exec (parse host callback sch) e)) /\
  f = state (files (exec (parse host callback sch) e)).
Proof.
  rewrite parse_exec, parse_output. unfold parse_steps.
  destruct (stages_frame sch e) as (Q & _ & _).
  destruct (stages host sch e) as [[e' o] [| |err]]; cbn [fst snd] in *; intro Hin;
    apply In_calls in Hin; cbn [calls] in Hin; rewrite ?calls_app, Q in Hin;
    cbn [app] in Hin.
  - destruct (calls_completed (callback_of callback) e') as (more & E & N).
    rewrite E in Hin.
    destruct Hin as [Hin|Hin]; [|now apply N in Hin].
    injection Hin as <- <-. auto.
  - destruct Hin.
  - exfalso. rewrite calls_caught in Hin.
    destruct (has_listener "error" e'); [destruct Hin as [Hin|[]]; discriminate|].
    destruct Hin.
Qed.

Lemma idle_success (e : Engine) :
  snd (stages host idle e) = Completes ->
  exists filed made,
    fst (fst (stages host idle e)) =
    publish Components (bind_methods (methods (components e)) (new_Collection made))
            (publish Files (bind_methods (methods (files e)) (new_Collection filed)) e).
Proof.
  rewrite stages_idle.
  destruct (readDir host (src e)); [|discriminate].
  destruct (process _ _) as [filed|]; [|discriminate]. cbv zeta.
  destruct (adoption _ _) as [ending|] eqn:A;
    [cbn [snd]; intros ->; now apply adoption_ends in A|].
  destruct (toArray _ _) as [records|]; [|discriminate].
  destruct (transformer e records); [|discriminate].
  destruct (process _ _) as [made|]; [|discriminate].
  intros _. exists filed, made.
  now destruct (adoption (bind_methods (methods (components e)) _) _).
Qed.





(** ** What the operations of a suspension point leave behind *)

Lemma after_app (a b : list Op) :
  forall e, after host (a ++ b) e = after host b (after host a e).
Proof.
  induction a as [|o a IH]; intro e; [reflexivity|].
  cbn [app]. now rewrite !after_cons, IH.
Qed.





Lemma run_op_src (o : Op) (e : Engine) :
  ~ src_op o -> src (exec (run_op host o) e) = src e.
Proof.
  destruct o as [s|p tn|n h tn|f|ev]; cbn [run_op src_op]; intro N.
  - now contradiction N.
  - rewrite addPlugin_exec. now destruct (target_named tn) as [[]|].
  - rewrite addMethod_exec. destruct (valid_method host n); [|reflexivity].
    now destruct (target_named tn) as [[]|].
  - reflexivity.
  - reflexivity.
Qed.












Lemma stages_idle_quiet (e : Engine) : snd (fst (stages host idle e)) = [].
Proof.
  rewrite stages_idle.
  destruct (readDir host (src e)); [|reflexivity].
  destruct (process _ _) as [filed|]; [|reflexivity]. cbv zeta.
  destruct (adoption _ _); [reflexivity|].
  destruct (toArray _ _) as [records|]; [|reflexivity].
  destruct (transformer e records); [|reflexivity].
  destruct (process _ _); [|reflexivity].
  now destruct (adoption _ _).
Qed.


End Properties.

(** * The claims *)

Section Claims.

Variable host : Host.

#[local] Arguments interleave : simpl never.
#[local] Arguments process : simpl never.
#[local] Arguments bind_methods : simpl never.
#[local] Arguments publish : simpl never.
#[local] Arguments has_listener : simpl never.
#[local] Arguments taken_over : simpl never.
#[local] Arguments toArray : simpl never.
#[local] Arguments adoption : simpl never.



(** C3, as amended.  Both conventions run the same chain and leave the
    same engine; the promise settles from what the callback form hands its
    callback first: [(null, components, files)] resolves it to
    [{components, files}], a truthy failure rejects it with that failure,
    and a falsy failure value resolves it to [{components: undefined,
    files: undefined}]; it stays pending when the callback form never
    calls back. *)
Theorem C3_promise_settles_as_the_callback_is_called
        (callback : Callback) (sch : Schedule) (e : Engine) :
  exec (parse host None sch) e = exec (parse host (Some callback) sch) e /\
  outcome (parse host None sch) e =
  Return (Some match calls (output (parse host (Some callback) sch) e) with
               | [] => Pending
               | CbSuccess c f :: _ => Resolved (slot c) (slot f)
               | CbFailure err :: _ =>
                   if truthy err then Rejected err else Resolved SUndefined SUndefined
               end).
Proof.
  split; [now rewrite !parse_exec|].
  unfold outcome. rewrite parse_run, parse_output. cbn [fst callback_of].
  rewrite settlement_calls. unfold parse_steps.
  destruct (stages_frame host sch e) as (Q & _ & _).
  destruct (stages host sch e) as [[e' o] [| |err]]; cbn [fst snd calls] in *;
    rewrite ?calls_app, Q; cbn [app].
  - reflexivity.
  - reflexivity.
  - rewrite !calls_caught. now destruct (has_listener "error" e').
Qed.






(** C9, as amended.  The source list is an ordered append-only list:
    [addSrc] puts the normalised paths, in their order, after the paths
    already there, whether or not they occur in the list already; when one
    of them fails validation the list is left as it was. *)
Theorem C9_addSrc_appends (s : SrcArg) (e : Engine) :
  src (exec (addSrc host s) e) =
  if forallb (valid_src host) (normalizePaths host s)
  then src e ++ normalizePaths host s
  else src e.
Proof.
  rewrite addSrc_exec. now destruct (forallb _ _).
Qed.

(** C10.  When the callback throws on being handed the successful result,
    after both states were published, the [catch] handler emits [error]
    and calls the same callback again with what it threw: the callback is
    invoked twice. *)
Theorem C10_throwing_callback_is_called_again
        (callback : Callback) (sch : Schedule) (e : Engine)
        (c f : option Collection) (x : Value) :
  has_listener "error" e = true ->
  In (Called (CbSuccess c f)) (output (parse host (Some callback) sch) e) ->
  callback (CbSuccess c f) = Throw x ->
  c = state (components (exec (parse host (Some callback) sch) e)) /\
  f = state (files (exec (parse host (Some callback) sch) e)) /\
  calls (output (parse host (Some callback) sch) e) = [CbSuccess c f; CbFailure x] /\
  exists before rest,
    calls before = [] /\ calls rest = [] /\
    output (parse host (Some callback) sch) e =
    before ++ [Emitted (EvParseComplete c f); Called (CbSuccess c f);
               Emitted (EvError x); Called (CbFailure x)] ++ rest.
Proof.
  intros L Hin Hx.
  destruct (called_success host _ _ _ _ _ Hin) as (Hs & Hc & Hf).
  split; [exact Hc|]. split; [exact Hf|].
  rewrite parse_exec in Hc, Hf. rewrite parse_output.
  cbn [callback_of]. unfold parse_steps.
  destruct (stages_frame host sch e) as (Q & _ & K). specialize (K L).
  destruct (stages host sch e) as [[e' o] [| |err]]; cbn [fst snd] in *;
    [|discriminate ..].
  unfold completed, caught. rewrite <- Hc, <- Hf, Hx, K.
  split.
  - cbn [calls]. rewrite calls_app, Q. cbn.
    now destruct (callback (CbFailure x)).
  - exists (Emitted EvParseStart :: o).
    exists (match callback (CbFailure x) with
            | Return _ => []
            | Throw y => [UnhandledRejection y]
            end).
    split; [exact Q|]. split; [now destruct (callback (CbFailure x))|]. reflexivity.
Qed.

(** ** Further properties of the class *)

(** X2.  Stage isolation: a plugin or a method registered on one target
    leaves the other target's plugins, methods and state as they were. *)
Theorem registration_leaves_the_other_target_alone
        (p : Plugin) (n : string) (h : Handler) (e : Engine) :
  components (exec (addPlugin p (Some "files")) e) = components e /\
  files (exec (addPlugin p (Some "components")) e) = files e /\
  files (exec (addPlugin p None) e) = files e /\
  components (exec (addMethod host n h (Some "files")) e) = components e /\
  files (exec (addMethod host n h (Some "components")) e) = files e /\
  files (exec (addMethod host n h None) e) = files e.
Proof.
  rewrite !addPlugin_exec, !addMethod_exec.
  destruct (valid_method host n); repeat split.
Qed.

(** X3.  When the source read or a files plugin fails, the parse leaves
    the engine exactly as it found it: neither state is published. *)
Theorem early_failure_publishes_nothing
        (callback : option Callback) (e : Engine) (err : Value) :
  (readDir host (src e) = Throw err \/
   exists input, readDir host (src e) = Return input /\
                 process (plugins (files e)) (or_empty input) = Throw err) ->
  exec (parse host callback idle) e = e.
Proof.
  intros [Hr | (input & Hr & Hf)]; rewrite parse_exec, stages_idle, Hr;
    [|rewrite Hf]; reflexivity.
Qed.

(** X4.  No configuration-time mutator touches the published states. *)
Theorem mutators_keep_the_published_states (o : Op) (e : Engine) :
  state (files (exec (run_op host o) e)) = state (files e) /\
  state (components (exec (run_op host o) e)) = state (components e).
Proof.
  destruct o as [s|p tn|n h tn|f|ev]; cbn [run_op].
  - rewrite addSrc_exec. now destruct (forallb _ _).
  - rewrite addPlugin_exec. now destruct (target_named tn) as [[]|].
  - rewrite addMethod_exec. destruct (valid_method host n); [|now split].
    now destruct (target_named tn) as [[]|].
  - now split.
  - now split.
Qed.

End Claims.

(** * More of the class *)

Section Registries.

Variable host : Host.

#[local] Arguments interleave : simpl never.
#[local] Arguments process : simpl never.
#[local] Arguments bind_methods : simpl never.
#[local] Arguments publish : simpl never.
#[local] Arguments has_listener : simpl never.
#[local] Arguments taken_over : simpl never.
#[local] Arguments toArray : simpl never.
#[local] Arguments adoption : simpl never.






(** X8.  [input || []]: a source read that resolves with nothing is parsed
    as a read that found no records. *)
Theorem falsy_read_is_an_empty_read
        (host' : Host) (callback : option Callback) (e : Engine) :
  readDir host (src e) = Return None ->
  readDir host' (src e) = Return (Some []) ->
  exec (parse host callback idle) e = exec (parse host' callback idle) e /\
  calls (output (parse host callback idle) e)
  = calls (output (parse host' callback idle) e).
Proof.
  intros H H'.
  assert (E : stages host idle e = stages host' idle e).
  { now rewrite !stages_idle, H, H'. }
  rewrite !parse_exec, !parse_output. unfold parse_steps. now rewrite E.
Qed.

(** X9.  A parse that succeeds, left alone, with a callback that returns:
    [parse.start], then [parse.complete] with the pair (components state,
    files state) the engine then holds, then the callback with [null] and
    that same pair, and nothing else. *)
Theorem successful_parse_emits_start_then_complete
        (callback : Callback) (e : Engine) (c f : option Collection) :
  In (Called (CbSuccess c f)) (output (parse host (Some callback) idle) e) ->
  callback (CbSuccess c f) = Return tt ->
  output (parse host (Some callback) idle) e
  = [Emitted EvParseStart; Emitted (EvParseComplete c f); Called (CbSuccess c f)] /\
  state (components (exec (parse host (Some callback) idle) e)) = c /\
  state (files (exec (parse host (Some callback) idle) e)) = f /\
  exists cc fc, c = Some cc /\ f = Some fc.
Proof.
  intros Hin Hcb.
  destruct (called_success host _ _ _ _ _ Hin) as (Hs & Hc & Hf).
  destruct (idle_success host e Hs) as (filed & made & He).
  pose proof (stages_idle_quiet host e) as Q.
  rewrite parse_exec in *. rewrite parse_output. cbn [callback_of]. unfold parse_steps.
  destruct (stages host idle e) as [[e' o] [| |err]]; cbn [fst snd] in *;
    [|discriminate ..].
  subst o. unfold completed. rewrite <- Hc, <- Hf, Hcb.
  split; [reflexivity|]. split; [reflexivity|]. split; [reflexivity|].
  subst e'. subst c f. do 2 eexists. split; reflexivity.
Qed.


(** X11.  A parse left alone changes the two states and nothing else: the
    engine keeps its identity, its source list, its transformer, its
    listeners, and both targets' plugins and methods, whether it succeeds
    or fails. *)
Theorem parse_changes_nothing_but_the_states
        (callback : option Callback) (e : Engine) :
  self (exec (parse host callback idle) e) = self e /\
  src_ref (exec (parse host callback idle) e) = src_ref e /\
  transformer (exec (parse host callback idle) e) = transformer e /\
  listeners (exec (parse host callback idle) e) = listeners e /\
  forall t,
    plugins (target t (exec (parse host callback idle) e)) = plugins (target t e) /\
    methods (target t (exec (parse host callback idle) e)) = methods (target t e).
Proof.
  rewrite parse_exec, stages_idle.
  destruct (readDir host (src e)); [|repeat split].
  destruct (process _ _) as [filed|]; [|repeat split]. cbv zeta.
  destruct (adoption _ _); [repeat split; destruct t; reflexivity|].
  destruct (toArray _ _) as [records|];
    [|repeat split; destruct t; reflexivity].
  destruct (transformer e records);
    [|repeat split; destruct t; reflexivity].
  destruct (process _ _); [|repeat split; destruct t; reflexivity].
  destruct (adoption _ _); repeat split; destruct t; reflexivity.
Qed.

(** ** addSrc, log, configure *)

Lemma validated_paths_log (l : list string) (e : Engine) :
  forEach l (fun p => validate (valid_src host p) "InvalidSrc" ;;
                      log ("Adding src: " ++ p) []) e
  = (if forallb (valid_src host) l then Return tt else Throw (VError "InvalidSrc"), e,
     map (fun p => logged ("Adding src: " ++ p)) (accepted_prefix host l)).
Proof.
  induction l as [|p l IH]; [reflexivity|].
  cbn [forEach forallb accepted_prefix]. unfold bind at 1. unfold bind at 1.
  destruct (valid_src host p); cbn [andb].
  - change (validate true "InvalidSrc" e) with (Return tt, e, @nil Effect).
    cbv beta iota. rewrite log_run, IH. reflexivity.
  - reflexivity.
Qed.

Lemma addSrc_run (s : SrcArg) (e : Engine) :
  addSrc host s e
  = (if forallb (valid_src host) (normalizePaths host s)
     then Return tt else Throw (VError "InvalidSrc"),
     if forallb (valid_src host) (normalizePaths host s)
     then set_src (src e ++ normalizePaths host s) e else e,
     map (fun p => logged ("Adding src: " ++ p))
         (accepted_prefix host (normalizePaths host s))).
Proof.
  unfold addSrc. unfold bind at 1.
  change (gets src e) with (Return (src e), e, @nil Effect). cbv beta iota.
  unfold bind at 1. rewrite validated_paths_log.
  destruct (forallb _ _); cbn; now rewrite ?app_nil_r.
Qed.

(** X12.  [addSrc] validates and logs path by path: it emits one
    [Adding src] event for each path up to the first invalid one, throws
    there, and adds the paths only when all of them passed; a call that
    throws has logged the paths before the invalid one and added none. *)
Theorem addSrc_logs_each_path_before_adding_any (s : SrcArg) (e : Engine) :
  output (addSrc host s) e
  = map (fun p => logged ("Adding src: " ++ p))
        (accepted_prefix host (normalizePaths host s)) /\
  (forallb (valid_src host) (normalizePaths host s) = true ->
   outcome (addSrc host s) e = Return tt) /\
  (forallb (valid_src host) (normalizePaths host s) = false ->
   (exists err, outcome (addSrc host s) e = Throw err) /\
   exec (addSrc host s) e = e).
Proof.
  unfold output, outcome, exec. rewrite addSrc_run. cbn [fst snd].
  split; [reflexivity|]. split; intros ->; [reflexivity|]. split; [eauto|reflexivity].
Qed.

(** X13.  [log(message, level, data)] and [log(message, data, level)] emit
    the same event when [data] is not a string, under the level given or
    [debug] when it is empty; [log(message)] logs under [debug]; and a
    lone argument that is not a string is taken as the level, the event
    carrying no data. *)
Theorem log_reads_level_and_data_in_either_order
        (message level : string) (data : Value) (e : Engine) :
  is_string data = false ->
  log message [data; VStr level] e = log message [VStr level; data] e /\
  log message [VStr level; data] e
  = (Return tt, e,
     [Emitted (EvLog (if level =? "" then VStr "debug" else VStr level) message data)]) /\
  log message [] e = (Return tt, e, [logged message]) /\
  log message [data] e
  = (Return tt, e,
     [Emitted (EvLog (if truthy data then data else VStr "debug") message VUndefined)]).
Proof.
  intro N. unfold log.
  destruct data as [| |b|n|s|m|ps|es|fl]; try discriminate N; cbn;
    destruct (level =? ""); cbn; repeat split;
    try destruct b; try destruct (n =? 0)%Z; reflexivity.
Qed.

(** X14.  [configure(config)] calls [log('Applying configuration',
    config)]: for a configuration object the event it emits has the object
    in its level and no data; the configuration is applied after that
    event. *)
Theorem configure_logs_the_config_as_the_level (config : Value) (e : Engine) :
  is_string config = false ->
  truthy config = true ->
  output (configure host config) e
  = Emitted (EvLog config "Applying configuration" VUndefined)
    :: output (applyConfig host config) e /\
  exec (configure host config) e = exec (applyConfig host config) e /\
  outcome (configure host config) e = outcome (applyConfig host config) e.
Proof.
  intros N T. unfold output, exec, outcome, configure, bind, log.
  destruct config as [| |b|n|s|m|ps|es|fl]; try discriminate N; try discriminate T;
    cbn in T |- *; rewrite ?T; cbn;
    match goal with
    | |- context [applyConfig host ?c e] =>
        destruct (applyConfig host c e) as [[r e'] o]
    end; repeat split.
Qed.

(** ** Methods at or below another method's path *)



(** ** Methods under the names the chain itself looks up *)



(** ** The constructor *)

(** X19.  The constructor applies the configuration before it installs its
    [error] listener: an [error] event emitted while the configuration is
    applied is heard by nobody, and [new Fractal(config)] throws; the same
    step on an engine that has its listener returns.  A configuration
    that fails validation throws before anything is logged. *)
Theorem constructor_listens_only_after_configuring
        (config : Value) (ref : EngineRef) (err : Value) :
  truthy config = true ->
  is_string config = false ->
  applyConfig host config = emit (EvError err) ->
  (valid_config host config = true ->
   outcome (constructor host config) (initial ref) = Throw (uncaught err) /\
   output (constructor host config) (initial ref)
   = [Emitted (EvLog config "Applying configuration" VUndefined)] /\
   has_listener "error" (exec (constructor host config) (initial ref)) = false) /\
  (valid_config host config = false ->
   (exists x, outcome (constructor host config) (initial ref) = Throw x) /\
   output (constructor host config) (initial ref) = []) /\
  forall e, has_listener "error" e = true ->
            applyConfig host config e = (Return tt, e, [Emitted (EvError err)]).
Proof.
  intros T N A. split; [|split].
  - intro V. unfold outcome, output, exec, constructor. rewrite V, T.
    unfold validate, configure.
    destruct config as [| |b|n|s|m|ps|es|fl]; try discriminate N; try discriminate T;
      cbv beta iota zeta; rewrite A; cbn in T |- *; rewrite ?T; repeat split.
  - intro V. unfold outcome, output, exec, constructor. rewrite V.
    split; [eexists|]; reflexivity.
  - intros e H. rewrite A. unfold emit, bind, gets. cbn. now rewrite H.
Qed.

End Registries.

(** ** watch *)

(** X16.  [watch] reads its arguments from the end: the last one is the
    listener and the one before it the extra paths, whatever comes before
    them; the configured sources are watched first, then the extra paths;
    a lone argument is the listener, so that a call with paths only
    watches the configured sources and no more. *)
Theorem watch_reads_its_arguments_from_the_end
        (utils_toArray : WatchArg -> list WatchArg) (before : list WatchArg)
        (paths callback lone : WatchArg) (e : Engine) :
  watch utils_toArray (before ++ [paths; callback]) e
  = watch utils_toArray [paths; callback] e /\
  watch utils_toArray [paths; callback] e
  = (map WPath (src e) ++ utils_toArray (if given paths then paths else WPaths []),
     if given callback then Given callback else Noop) /\
  watch utils_toArray [lone] e
  = (map WPath (src e) ++ utils_toArray (WPaths []),
     if given lone then Given lone else Noop) /\
  watch utils_toArray [] e = (map WPath (src e) ++ utils_toArray (WPaths []), Noop).
Proof.
  split; [|repeat split].
  unfold watch. now rewrite rev_app_distr.
Qed.

(** ** addAdapter *)

Section AdapterProperties.

Variable Adapter : Type.
Variable Registry : Type.
Variable adapter_name : Adapter -> string.
Variable adapters_add : Adapter -> Registry -> Result unit * Registry.
Variable adapter_plugin : Adapter -> Plugin.
Variable adapter_render : Adapter -> Handler.
Variable host : Host.

#[local] Arguments bind_methods : simpl never.
#[local] Arguments process : simpl never.

Local Abbreviation add_adapter :=
  (addAdapter adapter_name adapters_add adapter_plugin adapter_render host).


(** What [addAdapter] does once the registry has taken the adapter. *)
Lemma addAdapter_run (a : Adapter) (reg reg' : Registry) (e : Engine) :
  adapters_add a reg = (Return tt, reg') ->
  add_adapter a reg e
  = if valid_method host ("render." ++ adapter_name a)
    then (Return tt,
          (reg',
           set_target Components
             (set_methods
                (add (mkMethod ("render." ++ adapter_name a)
                               (mkWrapped (adapter_render a) (self e)))
                     (methods (components e)))
                (components e))
             (set_target Files
                (set_plugins (use (adapter_plugin a) (plugins (files e))) (files e)) e)),
          [])
    else (Throw (VError "InvalidMethod"),
          (reg',
           set_target Files
             (set_plugins (use (adapter_plugin a) (plugins (files e))) (files e)) e),
          []).
Proof.
  intro H. unfold addAdapter. rewrite H. unfold bind at 1.
  change (addPlugin (adapter_plugin a) (Some "files") e)
    with (Return tt,
          set_target Files
            (set_plugins (use (adapter_plugin a) (plugins (files e))) (files e)) e,
          @nil Effect).
  cbv beta iota. unfold addMethod, validate. unfold bind at 1.
  destruct (valid_method host _); reflexivity.
Qed.

(** X17.  [addAdapter] registers the adapter's plugin on files and then
    its render handler as the components method [render.<name>].  The
    plugin is registered before the method name is validated: when that
    validation fails, [addAdapter] throws with the adapter in the registry
    and the plugin on files, and no method registered. *)
Theorem addAdapter_registers_the_plugin_before_the_method
        (a : Adapter) (reg reg' : Registry) (e : Engine) :
  adapters_add a reg = (Return tt, reg') ->
  fst (snd (fst (add_adapter a reg e))) = reg' /\
  plugins (files (snd (snd (fst (add_adapter a reg e)))))
  = plugins (files e) ++ [adapter_plugin a] /\
  plugins (components (snd (snd (fst (add_adapter a reg e))))) = plugins (components e) /\
  methods (files (snd (snd (fst (add_adapter a reg e))))) = methods (files e) /\
  if valid_method host ("render." ++ adapter_name a)
  then fst (fst (add_adapter a reg e)) = Return tt /\
       methods (components (snd (snd (fst (add_adapter a reg e)))))
       = methods (components e)
         ++ [mkMethod ("render." ++ adapter_name a)
                      (mkWrapped (adapter_render a) (self e))]
  else (exists err, fst (fst (add_adapter a reg e)) = Throw err) /\
       methods (components (snd (snd (fst (add_adapter a reg e)))))
       = methods (components e).
Proof.
  intro H. rewrite (addAdapter_run a reg reg' e H).
  destruct (valid_method host _); cbn; repeat split. eauto.
Qed.


End AdapterProperties.

(** ** The claims on concrete engines *)





(** C3, refuted as stated: a files plugin rejects with [null]; the
    callback form delivers the failure as the callback's first argument,
    the promise form resolves. *)
Lemma C3_null_failure_resolves_the_promise :
  let h := holding [numbered 1] in
  let e := failing_files VNull in
  calls (output (parse h (Some observer) idle) e) = [CbFailure VNull] /\
  outcome (parse h None idle) e = Return (Some (Resolved SUndefined SUndefined)).
Proof. split; reflexivity. Qed.











(** C9, refuted as stated: adding a path that is already in the list
    leaves it there twice. *)
Lemma C9_same_path_added_twice :
  let h := holding [] in
  let e := exec (bind (addSrc h (OnePath "components"))
                      (fun _ => addSrc h (OnePath "components"))) (fresh h) in
  src e = ["components"; "components"] /\ ~ NoDup (src e).
Proof.
  split; [reflexivity|].
  intro N. inversion N as [|x l Hin _]. apply Hin. now left.
Qed.

(** A callback that throws on the result of a one-record parse is called
    a second time, with what it threw. *)
Lemma C10_fussy_callback :
  let h := holding [numbered 1] in
  let c := Some (new_Collection [numbered 1]) in
  calls (output (parse h (Some fussy) idle) (plain h))
  = [CbSuccess c c; CbFailure (VError "oops")] /\
  output (parse h (Some fussy) idle) (plain h)
  = [Emitted EvParseStart; Emitted (EvParseComplete c c); Called (CbSuccess c c);
     Emitted (EvError (VError "oops")); Called (CbFailure (VError "oops"))].
Proof.
  split.
  - exact (proj1 (proj2 (proj2
             (C10_throwing_callback_is_called_again
                (holding [numbered 1]) fussy idle (plain (holding [numbered 1]))
                (Some (new_Collection [numbered 1])) (Some (new_Collection [numbered 1]))
                (VError "oops") eq_refl
                (or_intror (or_intror (or_introl eq_refl))) eq_refl)))).
  - reflexivity.
Defined.

(** X3 on a disk that cannot be read: both states stay [null]. *)
Lemma unreadable_disk_publishes_nothing :
  let h := unreadable (VError "ENOENT") in
  exec (parse h (Some observer) idle) (plain h) = plain h.
Proof.
  exact (early_failure_publishes_nothing
           (unreadable (VError "ENOENT")) (Some observer)
           (plain (unreadable (VError "ENOENT"))) (VError "ENOENT")
           (or_introl eq_refl)).
Defined.

(** ** More of the class on concrete engines *)




(** X8: a read that resolves with nothing against an empty disk. *)
Lemma silent_disk_is_an_empty_disk :
  exec (parse silent (Some observer) idle) (plain silent)
  = exec (parse (holding []) (Some observer) idle) (plain silent) /\
  calls (output (parse silent (Some observer) idle) (plain silent))
  = calls (output (parse (holding []) (Some observer) idle) (plain silent)).
Proof.
  exact (falsy_read_is_an_empty_read
           silent (holding []) (Some observer) (plain silent) eq_refl eq_refl).
Defined.

(** X9 on one record and the pass-through transformer. *)
Lemma one_record_parse_emits_start_then_complete :
  let h := holding [numbered 1] in
  let c := Some (new_Collection [numbered 1]) in
  output (parse h (Some observer) idle) (plain h)
  = [Emitted EvParseStart; Emitted (EvParseComplete c c); Called (CbSuccess c c)] /\
  state (components (exec (parse h (Some observer) idle) (plain h))) = c /\
  state (files (exec (parse h (Some observer) idle) (plain h))) = c /\
  exists cc fc, c = Some cc /\ c = Some fc.
Proof.
  exact (successful_parse_emits_start_then_complete
           (holding [numbered 1]) observer (plain (holding [numbered 1]))
           (Some (new_Collection [numbered 1])) (Some (new_Collection [numbered 1]))
           (or_intror (or_intror (or_introl eq_refl))) eq_refl).
Defined.


(** X13: [log('hello', {n: 1}, 'warn')] and [log('hello', 'warn', {n: 1})]. *)
Lemma log_hello_warn :
  let e := fresh (holding []) in
  let data := VObject [("n", VNum 1)] in
  log "hello" [data; VStr "warn"] e = log "hello" [VStr "warn"; data] e /\
  log "hello" [VStr "warn"; data] e
  = (Return tt, e, [Emitted (EvLog (VStr "warn") "hello" data)]) /\
  log "hello" [] e = (Return tt, e, [logged "hello"]) /\
  log "hello" [data] e = (Return tt, e, [Emitted (EvLog data "hello" VUndefined)]).
Proof.
  exact (log_reads_level_and_data_in_either_order
           "hello" "warn" (VObject [("n", VNum 1)]) (fresh (holding [])) eq_refl).
Defined.

(** X14: [configure({src: 'components'})]. *)
Lemma configure_with_an_object :
  let h := holding [] in
  let config := VObject [("src", VStr "components")] in
  output (configure h config) (fresh h)
  = Emitted (EvLog config "Applying configuration" VUndefined)
    :: output (applyConfig h config) (fresh h) /\
  exec (configure h config) (fresh h) = exec (applyConfig h config) (fresh h) /\
  outcome (configure h config) (fresh h) = outcome (applyConfig h config) (fresh h).
Proof.
  exact (configure_logs_the_config_as_the_level
           (holding []) (VObject [("src", VStr "components")]) (fresh (holding []))
           eq_refl eq_refl).
Defined.


(** X17: an adapter without a name on a host that refuses the method name
    [render.]: the call throws, the adapter is in the registry and its
    plugin on files. *)
Lemma nameless_adapter_is_half_registered :
  let run := add_named strict "" [] (fresh strict) in
  fst (snd (fst run)) = [""] /\
  plugins (files (snd (snd (fst run)))) = plugins (files (fresh strict)) ++ [tag_seen] /\
  plugins (components (snd (snd (fst run)))) = plugins (components (fresh strict)) /\
  methods (files (snd (snd (fst run)))) = methods (files (fresh strict)) /\
  (exists err, fst (fst run) = Throw err) /\
  methods (components (snd (snd (fst run)))) = methods (components (fresh strict)).
Proof.
  exact (addAdapter_registers_the_plugin_before_the_method
           string (list string) (fun a => a) names_add (fun _ => tag_seen) names_render
           strict "" [] [""] (fresh strict) eq_refl).
Defined.


(** X19: [new Fractal({src: 'components'})] where applying the
    configuration emits an [error] event. *)
Lemma complaining_configuration_throws_in_the_constructor :
  let h := complaining (VError "no such directory") in
  let config := VObject [("src", VStr "components")] in
  (valid_config h config = true ->
   outcome (constructor h config) (initial 0) = Throw (VError "no such directory") /\
   output (constructor h config) (initial 0)
   = [Emitted (EvLog config "Applying configuration" VUndefined)] /\
   has_listener "error" (exec (constructor h config) (initial 0)) = false) /\
  (valid_config h config = false ->
   (exists x, outcome (constructor h config) (initial 0) = Throw x) /\
   output (constructor h config) (initial 0) = []) /\
  forall e, has_listener "error" e = true ->
            applyConfig h config e
            = (Return tt, e, [Emitted (EvError (VError "no such directory"))]).
Proof.
  exact (constructor_listens_only_after_configuring
           (complaining (VError "no such directory"))
           (VObject [("src", VStr "components")]) 0 (VError "no such directory")
           eq_refl eq_refl eq_refl).
Defined.


